(** * Chunked Whisper transcription service: model and properties

    Shallow embedding of [modal-whisper-service/main.py]: the Modal function
    [transcribe_video] and the web endpoint [transcribe_endpoint].

    Modelling conventions.
    - Python [int] is [Z].  Python [float] is modelled by the rationals [Q]
      with exact arithmetic: every finite binary64 value is a rational, and
      the rounding of [/] and [+] is left out of the model.  [int(x)] on a
      float truncates toward zero ([int_of_float]).
    - The external collaborators (Whisper model loading, yt-dlp, ffprobe,
      ffmpeg, [model.transcribe]) are oracles gathered in a [world]; each
      either raises an exception or returns its value, and its answer
      depends only on its arguments.
    - Effects are a writer-and-error monad [M]: a computation yields the
      chronological list of [event]s it performed (collaborator calls,
      [print]s, creation and removal of the temporary directory) and either a
      value or the exception that left it. *)

From Stdlib Require Import ZArith QArith Qround List Sorting.Sorted Lia Lqa.
From stdpp Require Import base option list sorting strings gmap.

Set Warnings "-register-all".

Local Open Scope Z_scope.

(** ** Python values and exceptions *)

(** A JSON-decoded Python value, as FastAPI hands it to the endpoint. *)
Inductive pyval :=
| PNone
| PBool (b : bool)
| PInt (z : Z)
| PFloat (q : Q)
| PStr (s : string)
| PList (l : list pyval)
| PDict (d : list (string * pyval)).

(** Python truth value, as tested by [if not video_url]. *)
Definition truthy (v : pyval) : bool :=
  match v with
  | PNone => false
  | PBool b => b
  | PInt z => negb (Z.eqb z 0)
  | PFloat q => negb (Qeq_bool q 0)
  | PStr s => negb (String.eqb s "")%string
  | PList l => match l with [] => false | _ => true end
  | PDict d => match d with [] => false | _ => true end
  end.

(** An exception: its class name and its [str(e)]. *)
Record exn := Exn { exn_class : string; exn_str : string }.

Definition ZeroDivisionError : exn :=
  Exn "ZeroDivisionError"%string "float division by zero"%string.

Inductive result (A : Type) :=
| Ok (a : A)
| Err (e : exn).
Arguments Ok {A} a.
Arguments Err {A} e.

(** ** Data of the service *)

(** Files inside the temporary directory. *)
Inductive path :=
| AudioFile              (* tmpdir / "audio.m4a" *)
| ChunkFile (i : Z).     (* tmpdir / f"chunk_{i}.m4a" *)

(** One entry of Whisper's [result["segments"]]; the service reads the keys
    ["start"], ["end"] and ["text"], the engine also sets others (["id"]). *)
Record whisper_segment := WhisperSegment {
  ws_id : Z;
  ws_start : Q;
  ws_end : Q;
  ws_text : string
}.

(** The dict returned by [model.transcribe]. *)
Record whisper_result := WhisperResult {
  wr_text : string;
  wr_segments : list whisper_segment
}.

(** One entry of the returned ["segments"] list. *)
Record segment := Segment {
  seg_start : Q;
  seg_end : Q;
  seg_text : string
}.

(** The dict returned by [transcribe_video]. *)
Record transcript := Transcript {
  text : string;
  segments : list segment
}.

(** What [transcribe_endpoint] returns: the transcript dict, or the tuple
    [({"error": msg}, status)]. *)
Inductive response :=
| RetTranscript (t : transcript)
| RetError (error : string) (status : Z).

(** ** Events and the effect monad *)

Inductive call :=
| LoadModel                                     (* whisper.load_model("large-v3") *)
| YtDlp (video_url : pyval)                     (* yt-dlp -f bestaudio -o audio.m4a --no-playlist url *)
| FFprobe                                       (* ffprobe ... audio.m4a *)
| FFmpeg (start_time chunk_duration i : Z)      (* ffmpeg -i audio.m4a -ss start -t len -c copy chunk_i.m4a *)
| Transcribe (f : path).                        (* model.transcribe(str(f)) *)

Inductive message :=
| MsgLoading
| MsgDownloading (video_url : pyval)
| MsgDuration (duration : Q)
| MsgShort
| MsgSplitting (chunk_duration : Z)
| MsgTranscribing (n : nat)
| MsgProcessing (start_time : Z)
| MsgError (e : exn).

Inductive event :=
| Call (c : call)
| Print (m : message)
| TmpCreate
| TmpCleanup.

Definition M (A : Type) : Type := list event * result A.

Definition ret {A} (a : A) : M A := ([], Ok a).

Definition bind {A B} (m : M A) (f : A → M B) : M B :=
  match m with
  | (t, Ok a) => let (t', r) := f a in (t ++ t', r)
  | (t, Err e) => (t, Err e)
  end.

Notation "x <- m ;; k" := (bind m (λ x, k))
  (at level 20, m at level 99, k at level 200, only parsing).
Notation "' p <- m ;; k" := (bind m (λ x, match x with p => k end))
  (at level 20, p pattern, m at level 99, k at level 200, only parsing).
Notation "m ;;; k" := (bind m (λ _, k))
  (at level 100, k at level 200, only parsing, right associativity).

Definition raise {A} (e : exn) : M A := ([], Err e).
Definition emit (ev : event) : M unit := ([ev], Ok tt).
Definition print (m : message) : M unit := emit (Print m).

(** [for x in xs: s = body x s], the loop variables threaded as [s]. *)
Fixpoint for_each {A S} (xs : list A) (s : S) (body : A → S → M S) : M S :=
  match xs with
  | [] => ret s
  | x :: xs' => s' <- body x s ;; for_each xs' s' body
  end.

(** [with tempfile.TemporaryDirectory() as tmpdir: body]: the directory is
    removed on every exit of the block. *)
Definition with_tmpdir {A} (body : M A) : M A :=
  let (t, r) := body in (TmpCreate :: t ++ [TmpCleanup], r).

(** [try: body except Exception as e: print(...); raise]. *)
Definition try_print_reraise {A} (body : M A) : M A :=
  match body with
  | (t, Err e) => (t ++ [Print (MsgError e)], Err e)
  | (t, Ok a) => (t, Ok a)
  end.

(** [try: body except Exception as e: handler e]. *)
Definition try_except {A} (body : M A) (handler : exn → M A) : M A :=
  match body with
  | (t, Err e) => let (t', r) := handler e in (t ++ t', r)
  | (t, Ok a) => (t, Ok a)
  end.

Definition trace {A} (m : M A) : list event := m.1.
Definition outcome {A} (m : M A) : result A := m.2.

Fixpoint calls (t : list event) : list call :=
  match t with
  | [] => []
  | Call c :: t' => c :: calls t'
  | _ :: t' => calls t'
  end.

(** ** Pure helpers *)

(** [range(n)] for an [int] n: empty when [n <= 0]. *)
Definition range (n : Z) : list Z := map Z.of_nat (seq 0 (Z.to_nat n)).

(** [int(x)] for a float: truncation toward zero. *)
Definition int_of_float (x : Q) : Z :=
  if Qle_bool 0 x then Qfloor x else Qceiling x.

(** [x / n] for a float [x] and an int [n]. *)
Definition float_div (x : Q) (n : Z) : M Q :=
  if Z.eqb n 0 then raise ZeroDivisionError else ret (x / inject_Z n)%Q.

(** [sep.join(l)]. *)
Fixpoint join (sep : string) (l : list string) : string :=
  match l with
  | [] => ""%string
  | [s] => s
  | s :: l' => (s +:+ sep +:+ join sep l')%string
  end.

(** The dict built in the direct branch. *)
Definition copy_segment (seg : whisper_segment) : segment :=
  {| seg_start := ws_start seg; seg_end := ws_end seg; seg_text := ws_text seg |}.

(** The dict built in the chunk loop. *)
Definition shift_segment (start_time : Z) (seg : whisper_segment) : segment :=
  {| seg_start := (ws_start seg + inject_Z start_time)%Q;
     seg_end := (ws_end seg + inject_Z start_time)%Q;
     seg_text := ws_text seg |}.

(** [for seg in segs: all_segments.append({...})]. *)
Definition append_segments (all_segments : list segment) (start_time : Z)
    (segs : list whisper_segment) : list segment :=
  fold_left (λ acc seg, acc ++ [shift_segment start_time seg]) segs all_segments.

Definition chunk_duration_default : Z := 600.

(** ** The collaborators *)

Record world := World {
  load_model : option exn;
  yt_dlp : pyval → option exn;
  (* float(subprocess.check_output(ffprobe ...).decode().strip()) *)
  ffprobe : result Q;
  (* arguments: start_time, chunk_duration, chunk index *)
  ffmpeg : Z → Z → Z → option exn;
  whisper : path → result whisper_result
}.

Section Service.
Variable w : world.

Definition run_call (c : call) (o : option exn) : M unit :=
  ([Call c], match o with None => Ok tt | Some e => Err e end).

Definition run_query {A} (c : call) (r : result A) : M A := ([Call c], r).

(** Body of the loop of lines 106-119. *)
Definition extract_chunk (chunk_duration i : Z) (chunks : list (Z * path))
    : M (list (Z * path)) :=
  let start_time := i * chunk_duration in
  let chunk_file := ChunkFile i in
  run_call (FFmpeg start_time chunk_duration i)
           (ffmpeg w start_time chunk_duration i) ;;;
  ret (chunks ++ [(start_time, chunk_file)]).

(** Lines 101-119: cut the audio into chunks. *)
Definition split_audio (duration : Q) (chunk_duration : Z) : M (list (Z * path)) :=
  print (MsgSplitting chunk_duration) ;;;
  q <- float_div duration chunk_duration ;;
  let num_chunks := int_of_float q + 1 in
  for_each (range num_chunks) [] (extract_chunk chunk_duration).

(** Body of the loop of lines 126-138. *)
Definition transcribe_chunk (chunk : Z * path) (acc : list segment * list string)
    : M (list segment * list string) :=
  let '(start_time, chunk_file) := chunk in
  let '(all_segments, full_text) := acc in
  print (MsgProcessing start_time) ;;;
  result <- run_query (Transcribe chunk_file) (whisper w chunk_file) ;;
  let all_segments := append_segments all_segments start_time (wr_segments result) in
  ret (all_segments, full_text ++ [wr_text result]).

(** Lines 121-146: transcribe the chunks in order and merge. *)
Definition transcribe_chunks (chunks : list (Z * path)) : M transcript :=
  print (MsgTranscribing (length chunks)) ;;;
  '(all_segments, full_text) <- for_each chunks ([], []) transcribe_chunk ;;
  let merged_text := join " "%string full_text in
  ret {| text := merged_text; segments := all_segments |}.

Definition transcribe_video (video_url : pyval) (chunk_duration : Z) : M transcript :=
  try_print_reraise (
    print MsgLoading ;;;
    run_call LoadModel (load_model w) ;;;
    with_tmpdir (
      print (MsgDownloading video_url) ;;;
      run_call (YtDlp video_url) (yt_dlp w video_url) ;;;
      duration <- run_query FFprobe (ffprobe w) ;;
      print (MsgDuration duration) ;;;
      if Qle_bool duration (inject_Z chunk_duration) then
        print MsgShort ;;;
        result <- run_query (Transcribe AudioFile) (whisper w AudioFile) ;;
        ret {| text := wr_text result;
               segments := map copy_segment (wr_segments result) |}
      else
        chunks <- split_audio duration chunk_duration ;;
        transcribe_chunks chunks)).

Definition transcribe_endpoint (item : gmap string pyval) : M response :=
  let video_url := default PNone (item !! "video_url"%string) in
  if negb (truthy video_url) then
    ret (RetError "video_url is required"%string 400)
  else
    try_except
      (result <- transcribe_video video_url chunk_duration_default ;;
       ret (RetTranscript result))
      (λ e, ret (RetError (exn_str e) 500)).

End Service.

(** ** Sample worlds *)

Definition sample_result (f : path) : whisper_result :=
  match f with
  | AudioFile => WhisperResult "whole"%string [WhisperSegment 0 0 2 "whole"%string]
  | ChunkFile i =>
      WhisperResult "part"%string
        [WhisperSegment 0 0 4 "hello"%string; WhisperSegment 1 5 9 "world"%string]
  end.

(** Every collaborator succeeds; the probed duration is [d]. *)
Definition world_ok (d : Q) : world :=
  {| load_model := None;
     yt_dlp := λ _, None;
     ffprobe := Ok d;
     ffmpeg := λ _ _ _, None;
     whisper := λ f, Ok (sample_result f) |}.

Definition sample_url : pyval := PStr "https://youtube.com/watch?v=x"%string.

(** The probe fails; every other collaborator succeeds. *)
Definition world_unreadable : world :=
  {| load_model := None;
     yt_dlp := λ _, None;
     ffprobe := Err (Exn "ValueError"%string "could not convert string to float: 'N/A'"%string);
     ffmpeg := λ _ _ _, None;
     whisper := λ f, Ok (sample_result f) |}.

(** Recognition fails on the second chunk; everything else succeeds. *)
Definition world_chunk1_fails : world :=
  {| load_model := None;
     yt_dlp := λ _, None;
     ffprobe := Ok 1200%Q;
     ffmpeg := λ _ _ _, None;
     whisper := λ f, match f with
                     | ChunkFile 1 => Err (Exn "RuntimeError"%string "CUDA out of memory"%string)
                     | _ => Ok (sample_result f)
                     end |}.

(** ** Reading a run: the calls it made and how it ended *)

Definition calls_of {A} (m : M A) : list call := calls (trace m).

Definition is_extraction (c : call) : bool :=
  match c with FFmpeg _ _ _ => true | _ => false end.

Definition is_recognition (c : call) : bool :=
  match c with Transcribe _ => true | _ => false end.

(** What the world answers to a call: the exception it raises, if any. *)
Definition call_error (w : world) (c : call) : option exn :=
  match c with
  | LoadModel => load_model w
  | YtDlp u => yt_dlp w u
  | FFprobe => match ffprobe w with Err e => Some e | Ok _ => None end
  | FFmpeg s l i => ffmpeg w s l i
  | Transcribe f => match whisper w f with Err e => Some e | Ok _ => None end
  end.


(** The part of [transcribe_video] that follows the probe (lines 85-146). *)
Definition after_probe (w : world) (duration : Q) (chunk_duration : Z) : M transcript :=
  if Qle_bool duration (inject_Z chunk_duration) then
    print MsgShort ;;;
    result <- run_query (Transcribe AudioFile) (whisper w AudioFile) ;;
    ret {| text := wr_text result;
           segments := map copy_segment (wr_segments result) |}
  else
    chunks <- split_audio w duration chunk_duration ;;
    transcribe_chunks w chunks.

(** The chunk appended by iteration [i] of the extraction loop. *)
Definition chunk_of (chunk_duration i : Z) : Z * path :=
  (i * chunk_duration, ChunkFile i).

(** The recognition result for chunk [i], when there is one. *)
Definition chunk_result (w : world) (i : Z) : whisper_result :=
  match whisper w (ChunkFile i) with
  | Ok r => r
  | Err _ => WhisperResult ""%string []
  end.

(** [int(duration / chunk_duration) + 1], line 104. *)
Definition num_chunks (duration : Q) (chunk_duration : Z) : Z :=
  int_of_float (duration / inject_Z chunk_duration) + 1.

(** ** Failures are terminal: the invariant *)

Definition all_ok (w : world) (cs : list call) : Prop :=
  Forall (λ k, call_error w k = None) cs.

(** The calls of a computation agree with its outcome: a returned value
    means every call succeeded; an exception is either raised by the code
    itself after successful calls, or it is the exception of the last call
    made, every earlier call having succeeded. *)
Definition sound (w : world) {A} (m : M A) : Prop :=
  match outcome m with
  | Ok _ => all_ok w (calls_of m)
  | Err e =>
      all_ok w (calls_of m)
      ∨ ∃ cs k, calls_of m = cs ++ [k] ∧ all_ok w cs ∧ call_error w k = Some e
  end.

(** ** Shape of a run's trace *)

(** The body of the [with] block (lines 61-146). *)
Definition in_tmpdir (w : world) (video_url : pyval) (chunk_duration : Z)
    : M transcript :=
  print (MsgDownloading video_url) ;;;
  run_call (YtDlp video_url) (yt_dlp w video_url) ;;;
  duration <- run_query FFprobe (ffprobe w) ;;
  print (MsgDuration duration) ;;;
  after_probe w duration chunk_duration.

(** The message printed by the [except] clause. *)
Definition is_error_msg (m : message) : bool :=
  match m with MsgError _ => true | _ => false end.

(** Events other than the creation and removal of the temporary directory
    and the print of the [except] clause. *)
Definition is_plain (ev : event) : bool :=
  match ev with
  | TmpCreate | TmpCleanup => false
  | Print m => negb (is_error_msg m)
  | Call _ => true
  end.

(** A call that belongs to the extraction loop. *)
Definition extraction_event (ev : event) : Prop :=
  match ev with Call k => is_extraction k = true | _ => True end.

(** A call that belongs to the recognition loop. *)
Definition recognition_event (ev : event) : Prop :=
  match ev with Call k => is_recognition k = true | _ => True end.

(** Every collaborator succeeds except ffmpeg on the third chunk. *)
Definition world_cut2_fails : world :=
  {| load_model := None;
     yt_dlp := λ _, None;
     ffprobe := Ok 1200%Q;
     ffmpeg := λ _ _ i, if Z.eqb i 2
                        then Some (Exn "CalledProcessError"%string
                                       "ffmpeg returned non-zero exit status 1"%string)
                        else None;
     whisper := λ f, Ok (sample_result f) |}.

(** The download fails. *)
Definition world_download_fails : world :=
  {| load_model := None;
     yt_dlp := λ _, Some (Exn "CalledProcessError"%string
                              "yt-dlp returned non-zero exit status 1"%string);
     ffprobe := Ok 1200%Q;
     ffmpeg := λ _ _ _, None;
     whisper := λ f, Ok (sample_result f) |}.


(** ** The effect monad: projections *)

Lemma calls_app t1 t2 : calls (t1 ++ t2) = calls t1 ++ calls t2.
Proof.
  induction t1 as [|ev t1 IH]; [reflexivity|].
  destruct ev; simpl; rewrite IH; reflexivity.
Qed.

Section Projections.
Context {A B : Type}.

Lemma bind_unfold (m : M A) (f : A → M B) :
  bind m f =
  match outcome m with
  | Ok a => (trace m ++ trace (f a), outcome (f a))
  | Err e => (trace m, Err e)
  end.
Proof. destruct m as [t [a|e]]; simpl; [destruct (f a)|]; reflexivity. Qed.

Lemma outcome_bind (m : M A) (f : A → M B) :
  outcome (bind m f) =
  match outcome m with Ok a => outcome (f a) | Err e => Err e end.
Proof. rewrite bind_unfold. destruct (outcome m); reflexivity. Qed.

Lemma calls_of_bind (m : M A) (f : A → M B) :
  calls_of (bind m f) =
  calls_of m ++ match outcome m with Ok a => calls_of (f a) | Err _ => [] end.
Proof.
  rewrite bind_unfold. unfold calls_of.
  destruct (outcome m); simpl; [apply calls_app | by rewrite app_nil_r].
Qed.

Lemma outcome_with_tmpdir (m : M A) : outcome (with_tmpdir m) = outcome m.
Proof. by destruct m. Qed.

Lemma calls_of_with_tmpdir (m : M A) : calls_of (with_tmpdir m) = calls_of m.
Proof.
  destruct m as [t r]. unfold calls_of; simpl.
  rewrite calls_app; simpl. by rewrite app_nil_r.
Qed.

Lemma outcome_try_print_reraise (m : M A) :
  outcome (try_print_reraise m) = outcome m.
Proof. by destruct m as [t [a|e]]. Qed.

Lemma calls_of_try_print_reraise (m : M A) :
  calls_of (try_print_reraise m) = calls_of m.
Proof.
  destruct m as [t [a|e]]; [reflexivity|].
  unfold calls_of; simpl. rewrite calls_app; simpl. by rewrite app_nil_r.
Qed.
End Projections.

Lemma outcome_print m : outcome (print m) = Ok tt.
Proof. reflexivity. Qed.
Lemma calls_of_print m : calls_of (print m) = [].
Proof. reflexivity. Qed.
Lemma outcome_run_call c o :
  outcome (run_call c o) = match o with None => Ok tt | Some e => Err e end.
Proof. reflexivity. Qed.
Lemma calls_of_run_call c o : calls_of (run_call c o) = [c].
Proof. reflexivity. Qed.
Lemma outcome_run_query {A} c (r : result A) : outcome (run_query c r) = r.
Proof. reflexivity. Qed.
Lemma calls_of_run_query {A} c (r : result A) : calls_of (run_query c r) = [c].
Proof. reflexivity. Qed.
Lemma outcome_ret {A} (a : A) : outcome (ret a) = Ok a.
Proof. reflexivity. Qed.
Lemma calls_of_ret {A} (a : A) : calls_of (ret a) = [].
Proof. reflexivity. Qed.

Create Rewrite HintDb run.
#[local] Hint Rewrite @outcome_bind @calls_of_bind @outcome_with_tmpdir
  @calls_of_with_tmpdir @outcome_try_print_reraise @calls_of_try_print_reraise
  outcome_print calls_of_print outcome_run_call calls_of_run_call
  @outcome_run_query @calls_of_run_query @outcome_ret @calls_of_ret : run.

Lemma outcome_transcribe_video w url c :
  outcome (transcribe_video w url c) =
  match load_model w with
  | Some e => Err e
  | None =>
      match yt_dlp w url with
      | Some e => Err e
      | None =>
          match ffprobe w with
          | Err e => Err e
          | Ok d => outcome (after_probe w d c)
          end
      end
  end.
Proof.
  unfold transcribe_video. autorewrite with run.
  destruct (load_model w); [reflexivity|].
  autorewrite with run.
  destruct (yt_dlp w url); [reflexivity|].
  destruct (ffprobe w); [|reflexivity].
  autorewrite with run. reflexivity.
Qed.

Lemma calls_of_transcribe_video w url c :
  calls_of (transcribe_video w url c) =
  LoadModel ::
  match load_model w with
  | Some e => []
  | None =>
      YtDlp url ::
      match yt_dlp w url with
      | Some e => []
      | None =>
          FFprobe ::
          match ffprobe w with
          | Err e => []
          | Ok d => calls_of (after_probe w d c)
          end
      end
  end.
Proof.
  unfold transcribe_video. autorewrite with run. cbn [app].
  destruct (load_model w); [reflexivity|].
  autorewrite with run. cbn [app].
  destruct (yt_dlp w url); [reflexivity|].
  destruct (ffprobe w); [|reflexivity].
  autorewrite with run. reflexivity.
Qed.

(** ** Pure helpers: facts *)

Lemma append_segments_app acc start_time segs :
  append_segments acc start_time segs = acc ++ map (shift_segment start_time) segs.
Proof.
  unfold append_segments. revert acc.
  induction segs as [|seg segs IH]; intros acc; simpl.
  - by rewrite app_nil_r.
  - rewrite IH, <- app_assoc. reflexivity.
Qed.

Lemma elem_of_range i n : i ∈ range n ↔ 0 <= i < n.
Proof.
  unfold range. rewrite list_elem_of_fmap. split.
  - intros (k & -> & Hk). apply elem_of_seq in Hk. lia.
  - intros Hi. exists (Z.to_nat i). split; [lia|]. apply elem_of_seq. lia.
Qed.




(** ** The two loops *)

Section Loops.
Variable w : world.
Variable c : Z.

Lemma extract_loop_ok (l : list Z) acc :
  (∀ i, i ∈ l → ffmpeg w (i * c) c i = None) →
  for_each l acc (extract_chunk w c) =
  (map (λ i, Call (FFmpeg (i * c) c i)) l, Ok (acc ++ map (chunk_of c) l)).
Proof.
  revert acc. induction l as [|i l IH]; intros acc Hok; simpl.
  - by rewrite app_nil_r.
  - unfold extract_chunk at 1. rewrite (Hok i) by left. simpl.
    rewrite IH by (intros j Hj; apply Hok; by right).
    by rewrite <- app_assoc.
Qed.

Lemma extract_loop_inv (l : list Z) acc chunks :
  outcome (for_each l acc (extract_chunk w c)) = Ok chunks →
  ∀ i, i ∈ l → ffmpeg w (i * c) c i = None.
Proof.
  revert acc. induction l as [|i l IH]; intros acc Hrun j Hj.
  - by apply elem_of_nil in Hj.
  - simpl in Hrun. rewrite outcome_bind in Hrun.
    unfold extract_chunk at 1 in Hrun. autorewrite with run in Hrun.
    destruct (ffmpeg w (i * c) c i) eqn:Hi; [discriminate|].
    apply elem_of_cons in Hj as [->|Hj]; [done|]. by eapply IH.
Qed.

Lemma transcribe_loop_ok (rs : Z → whisper_result) (l : list Z) segs txts :
  (∀ i, i ∈ l → whisper w (ChunkFile i) = Ok (rs i)) →
  for_each (map (chunk_of c) l) (segs, txts) (transcribe_chunk w) =
  (flat_map (λ i, [Print (MsgProcessing (i * c)); Call (Transcribe (ChunkFile i))]) l,
   Ok (segs ++ flat_map (λ i, map (shift_segment (i * c)) (wr_segments (rs i))) l,
       txts ++ map (λ i, wr_text (rs i)) l)).
Proof.
  revert segs txts. induction l as [|i l IH]; intros segs txts Hok; simpl.
  - by rewrite !app_nil_r.
  - rewrite (Hok i) by left. simpl.
    rewrite IH by (intros j Hj; apply Hok; by right).
    by rewrite append_segments_app, <- !app_assoc.
Qed.

Lemma transcribe_loop_inv (l : list Z) acc acc' :
  outcome (for_each (map (chunk_of c) l) acc (transcribe_chunk w)) = Ok acc' →
  ∀ i, i ∈ l → whisper w (ChunkFile i) = Ok (chunk_result w i).
Proof.
  revert acc. induction l as [|i l IH]; intros [segs txts] Hrun j Hj.
  - by apply elem_of_nil in Hj.
  - simpl in Hrun. rewrite outcome_bind in Hrun.
    autorewrite with run in Hrun.
    destruct (whisper w (ChunkFile i)) as [r|e] eqn:Hi; [|discriminate].
    apply elem_of_cons in Hj as [->|Hj].
    + unfold chunk_result. by rewrite Hi.
    + cbn [outcome snd] in Hrun. by eapply IH.
Qed.
End Loops.

Lemma calls_extract_events c (l : list Z) :
  calls (map (λ i, Call (FFmpeg (i * c) c i)) l) = map (λ i, FFmpeg (i * c) c i) l.
Proof. induction l as [|i l IH]; simpl; [|rewrite IH]; reflexivity. Qed.

Lemma calls_transcribe_events c (l : list Z) :
  calls (flat_map (λ i, [Print (MsgProcessing (i * c)); Call (Transcribe (ChunkFile i))]) l)
  = map (λ i, Transcribe (ChunkFile i)) l.
Proof. induction l as [|i l IH]; simpl; [|rewrite IH]; reflexivity. Qed.

Section Blocks.
Variable w : world.

Lemma split_audio_zero d :
  split_audio w d 0 = ([Print (MsgSplitting 0)], Err ZeroDivisionError).
Proof. reflexivity. Qed.

Lemma split_audio_ok d c :
  c ≠ 0 →
  (∀ i, i ∈ range (num_chunks d c) → ffmpeg w (i * c) c i = None) →
  split_audio w d c =
  (Print (MsgSplitting c) :: map (λ i, Call (FFmpeg (i * c) c i)) (range (num_chunks d c)),
   Ok (map (chunk_of c) (range (num_chunks d c)))).
Proof.
  intros Hc Hok. unfold split_audio, float_div.
  rewrite (proj2 (Z.eqb_neq c 0) Hc).
  cbn [print emit ret bind app].
  change (int_of_float _ + 1) with (num_chunks d c).
  by rewrite (extract_loop_ok _ _ _ _ Hok).
Qed.

Lemma split_audio_inv d c chunks :
  outcome (split_audio w d c) = Ok chunks →
  c ≠ 0 ∧ ∀ i, i ∈ range (num_chunks d c) → ffmpeg w (i * c) c i = None.
Proof.
  unfold split_audio, float_div. intros Hrun.
  destruct (Z.eqb_spec c 0) as [->|Hc]; [discriminate|].
  split; [done|].
  autorewrite with run in Hrun. by eapply extract_loop_inv.
Qed.

Lemma transcribe_chunks_ok (rs : Z → whisper_result) c (l : list Z) :
  (∀ i, i ∈ l → whisper w (ChunkFile i) = Ok (rs i)) →
  outcome (transcribe_chunks w (map (chunk_of c) l)) =
    Ok {| text := join " "%string (map (λ i, wr_text (rs i)) l);
          segments := flat_map (λ i, map (shift_segment (i * c)) (wr_segments (rs i))) l |}
  ∧ calls_of (transcribe_chunks w (map (chunk_of c) l)) =
    map (λ i, Transcribe (ChunkFile i)) l.
Proof.
  intros Hok. unfold transcribe_chunks, calls_of.
  rewrite (transcribe_loop_ok _ _ _ _ _ _ Hok).
  cbn [print emit ret bind app outcome trace fst snd calls].
  rewrite app_nil_r, calls_transcribe_events. done.
Qed.

Lemma transcribe_chunks_inv c (l : list Z) t :
  outcome (transcribe_chunks w (map (chunk_of c) l)) = Ok t →
  ∀ i, i ∈ l → whisper w (ChunkFile i) = Ok (chunk_result w i).
Proof.
  unfold transcribe_chunks. intros Hrun.
  autorewrite with run in Hrun.
  destruct (outcome (for_each _ _ _)) as [acc|e] eqn:Hloop; [|discriminate].
  by eapply transcribe_loop_inv.
Qed.
End Blocks.

(** ** The partition decision *)

Lemma Qle_bool_false d c : (inject_Z c < d)%Q → Qle_bool d (inject_Z c) = false.
Proof.
  intros Hlt. destruct (Qle_bool d (inject_Z c)) eqn:Hle; [|reflexivity].
  apply Qle_bool_iff in Hle. by apply Qlt_not_le in Hlt.
Qed.

Lemma Qle_bool_false_inv d c : Qle_bool d (inject_Z c) = false → (inject_Z c < d)%Q.
Proof.
  intros Hle. apply Qnot_le_lt. intros H%Qle_bool_iff. congruence.
Qed.

Section Partition.
Variable w : world.

Lemma after_probe_direct d c :
  (d <= inject_Z c)%Q →
  after_probe w d c =
  (print MsgShort ;;;
   result <- run_query (Transcribe AudioFile) (whisper w AudioFile) ;;
   ret {| text := wr_text result;
          segments := map copy_segment (wr_segments result) |}).
Proof. intros Hle%Qle_bool_iff. unfold after_probe. by rewrite Hle. Qed.

Lemma after_probe_chunked d c :
  (inject_Z c < d)%Q →
  after_probe w d c =
  (chunks <- split_audio w d c ;; transcribe_chunks w chunks).
Proof. intros Hlt%Qle_bool_false. unfold after_probe. by rewrite Hlt. Qed.

(** A chunked run that returns: every chunk was cut and recognised, and
    the transcript is the merge of the per-chunk results. *)
Lemma after_probe_chunked_inv d c t :
  (inject_Z c < d)%Q →
  outcome (after_probe w d c) = Ok t →
  c ≠ 0 ∧
  (∀ i, i ∈ range (num_chunks d c) →
     ffmpeg w (i * c) c i = None ∧
     whisper w (ChunkFile i) = Ok (chunk_result w i)) ∧
  t = {| text := join " "%string
                   (map (λ i, wr_text (chunk_result w i)) (range (num_chunks d c)));
         segments := flat_map (λ i, map (shift_segment (i * c))
                                       (wr_segments (chunk_result w i)))
                              (range (num_chunks d c)) |}.
Proof.
  intros Hlt Hrun. rewrite after_probe_chunked in Hrun by done.
  rewrite outcome_bind in Hrun.
  destruct (outcome (split_audio w d c)) as [chunks|e] eqn:Hsplit; [|discriminate].
  destruct (split_audio_inv _ _ _ _ Hsplit) as [Hc Hcut].
  rewrite (split_audio_ok _ _ _ Hc Hcut) in Hsplit.
  injection Hsplit as <-.
  pose proof (transcribe_chunks_inv _ _ _ _ Hrun) as Hrec.
  destruct (transcribe_chunks_ok w (chunk_result w) c _ Hrec) as [Hout _].
  rewrite Hout in Hrun. injection Hrun as <-.
  repeat split; auto.
Qed.

(** Conversely, when every chunk can be cut and recognised the run returns. *)
Lemma after_probe_chunked_ok d c :
  (inject_Z c < d)%Q →
  c ≠ 0 →
  (∀ i, i ∈ range (num_chunks d c) →
     ffmpeg w (i * c) c i = None ∧ ∃ r, whisper w (ChunkFile i) = Ok r) →
  ∃ t, outcome (after_probe w d c) = Ok t.
Proof.
  intros Hlt Hc Hok. rewrite after_probe_chunked by done.
  rewrite outcome_bind, split_audio_ok by (done || intros; by apply Hok).
  cbn [outcome snd].
  destruct (transcribe_chunks_ok w (chunk_result w) c (range (num_chunks d c)))
    as [Hout _]; [|eauto].
  intros i Hi. destruct (Hok i Hi) as [_ [r Hr]]. unfold chunk_result.
  by rewrite Hr.
Qed.
End Partition.




(** A chunked run returns a transcript as soon as every collaborator call
    it makes succeeds and the chunk duration is not 0. *)
Lemma chunked_run_returns w url c d :
  load_model w = None →
  yt_dlp w url = None →
  ffprobe w = Ok d →
  (inject_Z c < d)%Q →
  c ≠ 0 →
  (∀ i, 0 <= i < num_chunks d c →
     ffmpeg w (i * c) c i = None ∧ ∃ r, whisper w (ChunkFile i) = Ok r) →
  ∃ t, outcome (transcribe_video w url c) = Ok t.
Proof.
  intros Hload Hdl Hprobe Hlt Hc Hok.
  rewrite outcome_transcribe_video, Hload, Hdl, Hprobe.
  apply after_probe_chunked_ok; [done..|].
  intros i Hi. by apply Hok, elem_of_range.
Qed.

(** ** Properties of [transcribe_video] *)

(** C3. When the probed duration does not exceed the chunk duration the
    audio file itself is handed to the recognition engine: the run makes no
    ffmpeg call, exactly one recognition call (on the whole file), and the
    returned segments carry the engine's start, end and text unchanged. *)
Theorem short_audio_transcribed_directly w url c d :
  load_model w = None →
  yt_dlp w url = None →
  ffprobe w = Ok d →
  (d <= inject_Z c)%Q →
  calls_of (transcribe_video w url c)
    = [LoadModel; YtDlp url; FFprobe; Transcribe AudioFile]
  ∧ match whisper w AudioFile with
    | Ok r =>
        ∃ t, outcome (transcribe_video w url c) = Ok t
             ∧ text t = wr_text r
             ∧ Forall2 (λ s raw, seg_start s = ws_start raw
                                 ∧ seg_end s = ws_end raw
                                 ∧ seg_text s = ws_text raw)
                       (segments t) (wr_segments r)
    | Err e => outcome (transcribe_video w url c) = Err e
    end.
Proof.
  intros Hload Hdl Hprobe Hle.
  rewrite calls_of_transcribe_video, outcome_transcribe_video.
  rewrite Hload, Hdl, Hprobe, after_probe_direct by done.
  autorewrite with run. split.
  - cbn [app]. by destruct (whisper w AudioFile).
  - destruct (whisper w AudioFile) as [r|e]; [|reflexivity].
    eexists. split; [reflexivity|]. split; [reflexivity|]. cbn [segments].
    induction (wr_segments r) as [|raw raws IH]; constructor; auto.
Qed.

Lemma short_audio_transcribed_directly_witness :
  calls_of (transcribe_video (world_ok 300) sample_url 600)
    = [LoadModel; YtDlp sample_url; FFprobe; Transcribe AudioFile]
  ∧ ∃ t, outcome (transcribe_video (world_ok 300) sample_url 600) = Ok t
         ∧ text t = "whole"%string
         ∧ Forall2 (λ s raw, seg_start s = ws_start raw
                             ∧ seg_end s = ws_end raw
                             ∧ seg_text s = ws_text raw)
                   (segments t) [WhisperSegment 0 0 2 "whole"%string].
Proof.
  apply (short_audio_transcribed_directly (world_ok 300) sample_url 600 300);
    reflexivity || discriminate.
Defined.








(** C5 (amended).  A non-positive chunk duration is not rejected before
    I/O: the model load, the download and the probe come first.  With a
    chunk duration of 0 and a positive probed duration the run then fails
    with [ZeroDivisionError], and makes no ffmpeg or recognition call. *)
Theorem nonpositive_chunk_duration_not_validated w url c d :
  load_model w = None →
  yt_dlp w url = None →
  ffprobe w = Ok d →
  c <= 0 →
  (∃ rest, calls_of (transcribe_video w url c)
           = [LoadModel; YtDlp url; FFprobe] ++ rest)
  ∧ (c = 0 → (0 < d)%Q →
     outcome (transcribe_video w url c) = Err ZeroDivisionError
     ∧ calls_of (transcribe_video w url c) = [LoadModel; YtDlp url; FFprobe]).
Proof.
  intros Hload Hdl Hprobe Hc.
  rewrite calls_of_transcribe_video, outcome_transcribe_video.
  rewrite Hload, Hdl, Hprobe. split; [by eexists|].
  intros -> Hd. rewrite after_probe_chunked by done.
  rewrite outcome_bind, calls_of_bind, split_audio_zero. done.
Qed.

Lemma nonpositive_chunk_duration_not_validated_witness :
  (∃ rest, calls_of (transcribe_video (world_ok 5) sample_url 0)
           = [LoadModel; YtDlp sample_url; FFprobe] ++ rest)
  ∧ (0 = 0 → (0 < 5)%Q →
     outcome (transcribe_video (world_ok 5) sample_url 0) = Err ZeroDivisionError
     ∧ calls_of (transcribe_video (world_ok 5) sample_url 0)
       = [LoadModel; YtDlp sample_url; FFprobe]).
Proof.
  apply (nonpositive_chunk_duration_not_validated (world_ok 5) sample_url 0 5);
    reflexivity || lia.
Defined.

(** A run with chunk duration 0 on a 5 second source fails, but only in
    the division, after the download and the probe have been made. *)
Lemma zero_chunk_duration_reaches_probe :
  ¬ (∀ w url c,
       c <= 0 →
       (∃ e, outcome (transcribe_video w url c) = Err e)
       ∧ ∀ k, k ∈ calls_of (transcribe_video w url c) → k = LoadModel).
Proof.
  intros H.
  destruct (H (world_ok 5) sample_url 0 ltac:(lia)) as [_ Hcalls].
  specialize (Hcalls FFprobe). vm_compute in Hcalls.
  discriminate Hcalls. repeat constructor.
Qed.

(** With a negative chunk duration nothing fails in the code itself: when
    the collaborators accept it, one chunk is cut and recognised. *)
Example negative_chunk_duration_run :
  calls_of (transcribe_video (world_ok 5) sample_url (-10))
    = [LoadModel; YtDlp sample_url; FFprobe; FFmpeg 0 (-10) 0; Transcribe (ChunkFile 0)]
  ∧ ∃ t, outcome (transcribe_video (world_ok 5) sample_url (-10)) = Ok t.
Proof. split; [reflexivity | eexists; reflexivity]. Qed.

(** C6 (amended).  When the duration cannot be read (ffprobe fails or its
    output is not a number) the run fails, with the probe's exception when
    the earlier steps succeeded, and no extraction or recognition call is
    made. *)
Theorem unreadable_duration_fails w url c e :
  ffprobe w = Err e →
  (∃ e', outcome (transcribe_video w url c) = Err e')
  ∧ (load_model w = None → yt_dlp w url = None →
     outcome (transcribe_video w url c) = Err e)
  ∧ Forall (λ k, is_extraction k = false ∧ is_recognition k = false)
           (calls_of (transcribe_video w url c)).
Proof.
  intros Hprobe.
  rewrite calls_of_transcribe_video, outcome_transcribe_video, Hprobe.
  repeat split.
  - destruct (load_model w), (yt_dlp w url); eauto.
  - by intros -> ->.
  - destruct (load_model w), (yt_dlp w url); repeat constructor.
Qed.

Lemma unreadable_duration_fails_witness :
  (∃ e', outcome (transcribe_video world_unreadable sample_url 600) = Err e')
  ∧ (load_model world_unreadable = None → yt_dlp world_unreadable sample_url = None →
     outcome (transcribe_video world_unreadable sample_url 600)
     = Err (Exn "ValueError"%string "could not convert string to float: 'N/A'"%string))
  ∧ Forall (λ k, is_extraction k = false ∧ is_recognition k = false)
           (calls_of (transcribe_video world_unreadable sample_url 600)).
Proof.
  apply (unreadable_duration_fails world_unreadable sample_url 600). reflexivity.
Defined.

(** A source of duration 0 is handed to the recognition engine as a whole:
    the run does not stop at the probe. *)
Lemma zero_duration_transcribed :
  ¬ (∀ w url c d,
       ffprobe w = Ok d →
       (d <= 0)%Q →
       (∃ e, outcome (transcribe_video w url c) = Err e)
       ∧ Forall (λ k, is_recognition k = false) (calls_of (transcribe_video w url c))).
Proof.
  intros H.
  destruct (H (world_ok 0) sample_url 600 0%Q eq_refl ltac:(discriminate))
    as [_ Hcalls].
  eapply Forall_forall with (x := Transcribe AudioFile) in Hcalls.
  - discriminate Hcalls.
  - vm_compute. repeat constructor.
Qed.

(** ** Properties of [transcribe_endpoint] *)



(** C10. The endpoint reads only the key ["video_url"] of the body and
    calls [transcribe_video] with that value and the default chunk duration
    600: no other key of the body changes what the endpoint does. *)
Theorem endpoint_uses_default_chunk_duration w (item : gmap string pyval) url :
  item !! "video_url"%string = Some url →
  truthy url = true →
  trace (transcribe_endpoint w item) = trace (transcribe_video w url 600)
  ∧ outcome (transcribe_endpoint w item)
    = Ok match outcome (transcribe_video w url 600) with
         | Ok t => RetTranscript t
         | Err e => RetError (exn_str e) 500
         end
  ∧ ∀ (k : string) v, k ≠ "video_url"%string →
      transcribe_endpoint w (<[k := v]> item) = transcribe_endpoint w item.
Proof.
  intros Hurl Htrue.
  assert (Hcall : transcribe_endpoint w item =
                  try_except
                    (result <- transcribe_video w url 600 ;; ret (RetTranscript result))
                    (λ e, ret (RetError (exn_str e) 500))).
  { unfold transcribe_endpoint. rewrite Hurl. cbv zeta. cbn [default from_option id].
    by rewrite Htrue. }
  split; [|split].
  - rewrite Hcall. destruct (transcribe_video w url 600) as [t [r|e]];
      cbn [bind ret try_except trace fst]; by rewrite app_nil_r.
  - rewrite Hcall. by destruct (transcribe_video w url 600) as [t [r|e]].
  - intros k v Hk. unfold transcribe_endpoint. by rewrite lookup_insert_ne.
Qed.

Lemma endpoint_uses_default_chunk_duration_witness :
  trace (transcribe_endpoint (world_ok 1200)
           {[ "video_url"%string := sample_url; "chunk_duration"%string := PInt 60 ]})
  = trace (transcribe_video (world_ok 1200) sample_url 600).
Proof.
  apply (endpoint_uses_default_chunk_duration (world_ok 1200) _ sample_url);
    reflexivity.
Defined.

(** ** Failures are terminal *)

Section Sound.
Variable w : world.

Lemma sound_ret {A} (a : A) : sound w (ret a).
Proof. constructor. Qed.

Lemma sound_raise {A} e : sound w (@raise A e).
Proof. left. constructor. Qed.

Lemma sound_print m : sound w (print m).
Proof. constructor. Qed.

Lemma sound_run_call k : sound w (run_call k (call_error w k)).
Proof.
  unfold sound. rewrite outcome_run_call, calls_of_run_call.
  destruct (call_error w k) as [e|] eqn:Hk.
  - right. exists [], k. repeat split; [constructor | done].
  - by repeat constructor.
Qed.

Lemma sound_run_query {A} k (r : result A) :
  call_error w k = match r with Ok _ => None | Err e => Some e end →
  sound w (run_query k r).
Proof.
  intros Hk. unfold sound. rewrite outcome_run_query, calls_of_run_query.
  destruct r as [a|e].
  - by repeat constructor.
  - right. exists [], k. repeat split; [constructor | done].
Qed.

Lemma sound_bind {A B} (m : M A) (f : A → M B) :
  sound w m → (∀ a, sound w (f a)) → sound w (bind m f).
Proof.
  unfold sound. rewrite outcome_bind, calls_of_bind. intros Hm Hf.
  destruct (outcome m) as [a|e]; [|by rewrite app_nil_r].
  specialize (Hf a). destruct (outcome (f a)) as [b|e].
  - by apply Forall_app.
  - destruct Hf as [Hf|(cs & k & -> & Hcs & Hk)].
    + left. by apply Forall_app.
    + right. exists (calls_of m ++ cs), k.
      rewrite app_assoc. repeat split; [by apply Forall_app | done].
Qed.

Lemma sound_for_each {A S} (body : A → S → M S) xs s :
  (∀ x s, sound w (body x s)) → sound w (for_each xs s body).
Proof.
  intros Hbody. revert s.
  induction xs as [|x xs IH]; intros s; [apply sound_ret|].
  by apply sound_bind.
Qed.

Lemma sound_with_tmpdir {A} (m : M A) : sound w m → sound w (with_tmpdir m).
Proof. unfold sound. by rewrite outcome_with_tmpdir, calls_of_with_tmpdir. Qed.

Lemma sound_try_print_reraise {A} (m : M A) :
  sound w m → sound w (try_print_reraise m).
Proof.
  unfold sound.
  by rewrite outcome_try_print_reraise, calls_of_try_print_reraise.
Qed.

Lemma sound_split_audio d c : sound w (split_audio w d c).
Proof.
  unfold split_audio. apply sound_bind; [apply sound_print|]. intros _.
  apply sound_bind.
  - unfold float_div. destruct (Z.eqb c 0); [apply sound_raise | apply sound_ret].
  - intros q. apply sound_for_each. intros i chunks. unfold extract_chunk.
    apply sound_bind; [|intros; apply sound_ret].
    apply (sound_run_call (FFmpeg (i * c) c i)).
Qed.

Lemma sound_transcribe_chunks chunks : sound w (transcribe_chunks w chunks).
Proof.
  unfold transcribe_chunks. apply sound_bind; [apply sound_print|]. intros _.
  apply sound_bind.
  - apply sound_for_each. intros [start_time chunk_file] [segs txts].
    unfold transcribe_chunk. apply sound_bind; [apply sound_print|]. intros _.
    apply sound_bind; [|intros; apply sound_ret].
    apply sound_run_query. cbn [call_error].
    by destruct (whisper w chunk_file).
  - intros [segs txts]. apply sound_ret.
Qed.

Lemma sound_transcribe_video url c : sound w (transcribe_video w url c).
Proof.
  unfold transcribe_video. apply sound_try_print_reraise.
  apply sound_bind; [apply sound_print|]. intros _.
  apply sound_bind; [apply (sound_run_call LoadModel)|]. intros _.
  apply sound_with_tmpdir.
  apply sound_bind; [apply sound_print|]. intros _.
  apply sound_bind; [apply (sound_run_call (YtDlp url))|]. intros _.
  apply sound_bind.
  { apply sound_run_query. cbn [call_error]. by destruct (ffprobe w). }
  intros d. apply sound_bind; [apply sound_print|]. intros _.
  destruct (Qle_bool d (inject_Z c)).
  - apply sound_bind; [apply sound_print|]. intros _.
    apply sound_bind; [|intros; apply sound_ret].
    apply sound_run_query. cbn [call_error]. by destruct (whisper w AudioFile).
  - apply sound_bind; [apply sound_split_audio|]. intros chunks.
    apply sound_transcribe_chunks.
Qed.
End Sound.

(** C8. If a collaborator call of the run fails, in particular the ffmpeg
    or the recognition call of any chunk, the run ends with that call's
    exception instead of a transcript; the failing call is the last call of
    the run and every call before it succeeded, so nothing is retried and
    nothing is attempted after the failure. *)
Theorem chunk_failure_aborts_run w url c k e :
  k ∈ calls_of (transcribe_video w url c) →
  call_error w k = Some e →
  outcome (transcribe_video w url c) = Err e
  ∧ ∃ cs, calls_of (transcribe_video w url c) = cs ++ [k] ∧ all_ok w cs.
Proof.
  intros Hin Hk. pose proof (sound_transcribe_video w url c) as Hsound.
  unfold sound in Hsound.
  assert (Hbad : ¬ all_ok w (calls_of (transcribe_video w url c))).
  { intros Hall. eapply Forall_forall in Hall; [|exact Hin]. congruence. }
  destruct (outcome (transcribe_video w url c)) as [t|e']; [done|].
  destruct Hsound as [Hall|(cs & k' & Hcalls & Hcs & Hk')]; [done|].
  rewrite Hcalls in Hin. apply elem_of_app in Hin as [Hin|Hin].
  - eapply Forall_forall in Hcs; [|exact Hin]. congruence.
  - apply list_elem_of_singleton in Hin as ->.
    split; [congruence | eauto].
Qed.

Lemma chunk_failure_aborts_run_witness :
  outcome (transcribe_video world_chunk1_fails sample_url 600)
    = Err (Exn "RuntimeError"%string "CUDA out of memory"%string)
  ∧ ∃ cs, calls_of (transcribe_video world_chunk1_fails sample_url 600)
          = cs ++ [Transcribe (ChunkFile 1)]
          ∧ all_ok world_chunk1_fails cs.
Proof.
  apply (chunk_failure_aborts_run world_chunk1_fails sample_url 600
           (Transcribe (ChunkFile 1))).
  - vm_compute. repeat constructor.
  - reflexivity.
Defined.

(** ** Order of the merged segments *)








(** * Further properties of the service *)

(** ** Traces of composed computations *)

Lemma trace_bind {A B} (m : M A) (f : A → M B) :
  trace (bind m f) =
  trace m ++ match outcome m with Ok a => trace (f a) | Err _ => [] end.
Proof.
  rewrite bind_unfold. destruct (outcome m); cbn [trace fst]; [done|].
  by rewrite app_nil_r.
Qed.

Lemma Forall_trace_bind {A B} (P : event → Prop) (m : M A) (f : A → M B) :
  Forall P (trace m) → (∀ a, Forall P (trace (f a))) → Forall P (trace (bind m f)).
Proof.
  intros Hm Hf. rewrite trace_bind. apply Forall_app. split; [done|].
  destruct (outcome m); [apply Hf | constructor].
Qed.

Lemma Forall_trace_for_each {A S} (P : event → Prop) (body : A → S → M S) xs s :
  (∀ x s, Forall P (trace (body x s))) → Forall P (trace (for_each xs s body)).
Proof.
  intros Hbody. revert s. induction xs as [|x xs IH]; intros s; [constructor|].
  by apply Forall_trace_bind.
Qed.

Lemma Forall_calls (P : event → Prop) (Q : call → Prop) t :
  (∀ k, P (Call k) → Q k) → Forall P t → Forall Q (calls t).
Proof.
  intros HPQ. induction 1 as [|ev t Hev _ IH]; [constructor|].
  destruct ev; cbn [calls]; auto.
Qed.

Lemma transcribe_video_unfold w url c :
  transcribe_video w url c =
  try_print_reraise
    (print MsgLoading ;;;
     run_call LoadModel (load_model w) ;;;
     with_tmpdir (in_tmpdir w url c)).
Proof. reflexivity. Qed.

Section Shape.
Variable w : world.

Lemma split_audio_events (P : event → Prop) d c :
  (∀ m, is_error_msg m = false → P (Print m)) →
  (∀ s l i, P (Call (FFmpeg s l i))) →
  Forall P (trace (split_audio w d c)).
Proof.
  intros Hprint Hcut. unfold split_audio.
  apply Forall_trace_bind; [repeat constructor; by apply Hprint|]. intros _.
  apply Forall_trace_bind.
  { unfold float_div. destruct (Z.eqb c 0); constructor. }
  intros q. apply Forall_trace_for_each. intros i chunks. unfold extract_chunk.
  apply Forall_trace_bind; [by repeat constructor | constructor].
Qed.

Lemma transcribe_chunks_events (P : event → Prop) chunks :
  (∀ m, is_error_msg m = false → P (Print m)) →
  (∀ f, P (Call (Transcribe f))) →
  Forall P (trace (transcribe_chunks w chunks)).
Proof.
  intros Hprint Hrec. unfold transcribe_chunks.
  apply Forall_trace_bind; [repeat constructor; by apply Hprint|]. intros _.
  apply Forall_trace_bind.
  - apply Forall_trace_for_each. intros [start_time chunk_file] [segs txts].
    unfold transcribe_chunk.
    apply Forall_trace_bind; [repeat constructor; by apply Hprint|]. intros _.
    apply Forall_trace_bind; [by repeat constructor | constructor].
  - intros [segs txts]. constructor.
Qed.

Lemma after_probe_events (P : event → Prop) d c :
  (∀ m, is_error_msg m = false → P (Print m)) →
  (∀ s l i, P (Call (FFmpeg s l i))) →
  (∀ f, P (Call (Transcribe f))) →
  Forall P (trace (after_probe w d c)).
Proof.
  intros Hprint Hcut Hrec. unfold after_probe.
  destruct (Qle_bool d (inject_Z c)).
  - apply Forall_trace_bind; [repeat constructor; by apply Hprint|]. intros _.
    apply Forall_trace_bind; [by repeat constructor | constructor].
  - apply Forall_trace_bind; [by apply split_audio_events|]. intros chunks.
    by apply transcribe_chunks_events.
Qed.
End Shape.

Lemma in_tmpdir_plain w url c :
  Forall (λ ev, is_plain ev = true) (trace (in_tmpdir w url c)).
Proof.
  unfold in_tmpdir.
  apply Forall_trace_bind; [by repeat constructor|]. intros _.
  apply Forall_trace_bind; [by repeat constructor|]. intros _.
  apply Forall_trace_bind; [by repeat constructor|]. intros d.
  apply Forall_trace_bind; [by repeat constructor|]. intros _.
  apply after_probe_events; [|done..].
  intros m Hm. cbn [is_plain]. by rewrite Hm.
Qed.

Lemma trace_transcribe_video w url c :
  trace (transcribe_video w url c) =
  Print MsgLoading :: Call LoadModel ::
  match load_model w with
  | Some e => [Print (MsgError e)]
  | None =>
      TmpCreate :: trace (in_tmpdir w url c) ++
      TmpCleanup :: match outcome (in_tmpdir w url c) with
                    | Ok _ => []
                    | Err e => [Print (MsgError e)]
                    end
  end.
Proof.
  rewrite transcribe_video_unfold.
  destruct (load_model w); [reflexivity|].
  destruct (in_tmpdir w url c) as [t [a|e]]; cbn; [reflexivity|].
  by rewrite <- app_assoc.
Qed.

Lemma outcome_in_tmpdir w url c :
  load_model w = None →
  outcome (transcribe_video w url c) = outcome (in_tmpdir w url c).
Proof.
  intros Hload. rewrite transcribe_video_unfold, Hload.
  by destruct (in_tmpdir w url c) as [t [a|e]].
Qed.

(** ** The temporary directory and the error print *)

(** X3. If the model cannot be loaded no temporary directory is created.
    Otherwise the directory is created right after the load, every other
    call and print of the run happens before its removal, and it is removed
    exactly once whether the run returns or raises; only the print of the
    [except] clause can follow the removal. *)
Theorem temporary_directory_always_removed w url c :
  match load_model w with
  | Some e =>
      trace (transcribe_video w url c)
      = [Print MsgLoading; Call LoadModel; Print (MsgError e)]
  | None =>
      ∃ body,
        trace (transcribe_video w url c)
        = [Print MsgLoading; Call LoadModel; TmpCreate] ++ body ++
          TmpCleanup :: match outcome (transcribe_video w url c) with
                        | Ok _ => []
                        | Err e => [Print (MsgError e)]
                        end
        ∧ Forall (λ ev, is_plain ev = true) body
  end.
Proof.
  rewrite trace_transcribe_video.
  destruct (load_model w) eqn:Hload; [reflexivity|].
  exists (trace (in_tmpdir w url c)).
  rewrite (outcome_in_tmpdir _ _ _ Hload).
  split; [reflexivity | apply in_tmpdir_plain].
Qed.


(** ** The endpoint *)




(** ** How the audio is cut *)

Lemma quotient_times_divisor (d : Q) (c : Z) :
  c ≠ 0 → (d / inject_Z c * inject_Z c == d)%Q.
Proof.
  intros Hc. rewrite Qmult_comm. apply Qmult_div_r.
  intros H. apply Hc. by apply (inject_Z_injective c 0).
Qed.




Lemma range_nonpos n : n <= 0 → range n = [].
Proof. intros Hn. unfold range. by replace (Z.to_nat n) with 0%nat by lia. Qed.

Lemma NoDup_range n : NoDup (range n).
Proof.
  unfold range. apply NoDup_fmap_2; [|apply NoDup_seq].
  intros a b. lia.
Qed.

(** What the extraction loop returns, when it returns. *)
Lemma split_audio_result w d c chunks :
  outcome (split_audio w d c) = Ok chunks →
  c ≠ 0 ∧ chunks = map (chunk_of c) (range (num_chunks d c)).
Proof.
  intros Hrun. destruct (split_audio_inv _ _ _ _ Hrun) as [Hc Hcut].
  rewrite (split_audio_ok _ _ _ Hc Hcut) in Hrun.
  injection Hrun as <-. done.
Qed.





(** X10. The chunks returned by the extraction loop have pairwise distinct
    files and pairwise distinct start offsets: no ffmpeg call overwrites the
    output of an earlier one. *)
Theorem chunks_distinct w d c chunks :
  outcome (split_audio w d c) = Ok chunks →
  NoDup (map snd chunks) ∧ NoDup (map fst chunks).
Proof.
  intros Hrun. destruct (split_audio_result _ _ _ _ Hrun) as [Hc ->].
  rewrite !map_map. cbn [chunk_of fst snd]. split.
  - apply NoDup_fmap_2; [|apply NoDup_range]. by intros a b [= ->].
  - apply NoDup_fmap_2; [|apply NoDup_range]. intros a b Hab. nia.
Qed.

Lemma chunks_distinct_witness :
  NoDup [ChunkFile 0; ChunkFile 1; ChunkFile 2] ∧ NoDup [0; 600; 1200].
Proof.
  apply (chunks_distinct (world_ok 1200) 1200 600
           [(0, ChunkFile 0); (600, ChunkFile 1); (1200, ChunkFile 2)]).
  reflexivity.
Defined.

(** ** Order of the calls *)

(** X7. In a chunked run whose calls all succeed, every chunk is cut before
    the first one is recognised: the calls are the load, the download, the
    probe, then one ffmpeg call per chunk in ascending order, then one
    recognition call per chunk file in the same order. *)
Theorem chunked_run_call_order w url c d :
  load_model w = None →
  yt_dlp w url = None →
  ffprobe w = Ok d →
  (inject_Z c < d)%Q →
  c ≠ 0 →
  (∀ i, 0 <= i < num_chunks d c →
     ffmpeg w (i * c) c i = None ∧ ∃ r, whisper w (ChunkFile i) = Ok r) →
  calls_of (transcribe_video w url c) =
  [LoadModel; YtDlp url; FFprobe]
  ++ map (λ i, FFmpeg (i * c) c i) (range (num_chunks d c))
  ++ map (λ i, Transcribe (ChunkFile i)) (range (num_chunks d c)).
Proof.
  intros Hload Hdl Hprobe Hlt Hc Hok.
  rewrite calls_of_transcribe_video, Hload, Hdl, Hprobe.
  rewrite after_probe_chunked, calls_of_bind by done.
  rewrite split_audio_ok by (done || intros i Hi; by apply Hok, elem_of_range).
  cbn [outcome snd]. unfold calls_of at 1. cbn [trace fst calls].
  rewrite calls_extract_events.
  destruct (transcribe_chunks_ok w (chunk_result w) c (range (num_chunks d c)))
    as [_ ->]; [|done].
  intros i Hi. destruct (Hok i (proj1 (elem_of_range _ _) Hi)) as [_ [r Hr]].
  unfold chunk_result. by rewrite Hr.
Qed.

Lemma chunked_run_call_order_witness :
  calls_of (transcribe_video (world_ok 650) sample_url 600) =
  [LoadModel; YtDlp sample_url; FFprobe;
   FFmpeg 0 600 0; FFmpeg 600 600 1;
   Transcribe (ChunkFile 0); Transcribe (ChunkFile 1)].
Proof.
  apply (chunked_run_call_order (world_ok 650) sample_url 600 650);
    try reflexivity; [lia|].
  intros i _. split; [reflexivity | by eexists].
Defined.

(** X8. If an ffmpeg call of the run fails, the run has made no recognition
    call at all: chunks cut before the failure are never transcribed. *)
Theorem failed_extraction_means_no_recognition w url c s l i e :
  FFmpeg s l i ∈ calls_of (transcribe_video w url c) →
  ffmpeg w s l i = Some e →
  Forall (λ k, is_recognition k = false) (calls_of (transcribe_video w url c)).
Proof.
  rewrite calls_of_transcribe_video. intros Hin Hfail.
  assert (Hpre : ∀ k rest, FFmpeg s l i ∈ k :: rest → is_extraction k = false →
                           FFmpeg s l i ∈ rest).
  { intros k rest [<-|H]%elem_of_cons Hk; [discriminate Hk | done]. }
  destruct (load_model w).
  { apply Hpre in Hin; [|done]. by apply elem_of_nil in Hin. }
  destruct (yt_dlp w url).
  { do 2 (apply Hpre in Hin; [|done]). by apply elem_of_nil in Hin. }
  destruct (ffprobe w) as [d|].
  2:{ do 3 (apply Hpre in Hin; [|done]). by apply elem_of_nil in Hin. }
  do 3 (apply Hpre in Hin; [|done]). repeat (constructor; [done|]).
  destruct (Qle_bool d (inject_Z c)) eqn:Hle.
  { apply Qle_bool_iff in Hle. rewrite after_probe_direct in Hin by done.
    autorewrite with run in Hin. cbn [app] in Hin.
    apply Hpre in Hin; [|done].
    destruct (whisper w AudioFile); by apply elem_of_nil in Hin. }
  apply Qle_bool_false_inv in Hle.
  rewrite after_probe_chunked, calls_of_bind in Hin |- * by done.
  assert (Hcut : Forall (λ k, is_extraction k = true) (calls_of (split_audio w d c))).
  { eapply Forall_calls; [|by apply (split_audio_events w extraction_event)].
    done. }
  destruct (outcome (split_audio w d c)) as [chunks|e'] eqn:Hsplit.
  - exfalso. destruct (split_audio_inv _ _ _ _ Hsplit) as [Hc Hok].
    apply elem_of_app in Hin as [Hin|Hin].
    + unfold calls_of in Hin. rewrite (split_audio_ok _ _ _ Hc Hok) in Hin.
      cbn [trace fst calls] in Hin. rewrite calls_extract_events in Hin.
      apply list_elem_of_fmap in Hin as (j & [= -> -> ->] & Hj).
      rewrite (Hok j Hj) in Hfail. discriminate.
    + assert (Hrec : Forall (λ k, is_recognition k = true)
                            (calls_of (transcribe_chunks w chunks))).
      { eapply Forall_calls;
          [|by apply (transcribe_chunks_events w recognition_event)]. done. }
      eapply Forall_forall in Hrec; [|exact Hin]. discriminate.
  - rewrite app_nil_r. eapply Forall_impl; [exact Hcut|].
    by intros [] ?.
Qed.

Lemma failed_extraction_means_no_recognition_witness :
  Forall (λ k, is_recognition k = false)
         (calls_of (transcribe_video world_cut2_fails sample_url 600)).
Proof.
  apply (failed_extraction_means_no_recognition world_cut2_fails sample_url 600
           1200 600 2
           (Exn "CalledProcessError"%string
                "ffmpeg returned non-zero exit status 1"%string)).
  - vm_compute. repeat constructor.
  - reflexivity.
Defined.

(** ** Edge cases of the partition *)

Lemma num_chunks_negative d c :
  c < 0 → (inject_Z (- c) <= d)%Q → num_chunks d c <= 0.
Proof.
  intros Hc Hd.
  pose proof (quotient_times_divisor d c ltac:(lia)) as Hq.
  assert (inject_Z 0 < inject_Z (- c))%Q as Hc' by (rewrite <- Zlt_Qlt; lia).
  rewrite inject_Z_opp in Hd, Hc'. change (inject_Z 0) with 0%Q in Hc'.
  unfold num_chunks. set (q := (d / inject_Z c)%Q) in *.
  assert (Hq1 : (q <= -1)%Q).
  { apply Qnot_lt_le. intros Hlt.
    apply (Qmult_lt_r _ _ _ Hc') in Hlt. nra. }
  unfold int_of_float. destruct (Qle_bool 0 q) eqn:H0.
  - apply Qle_bool_iff in H0. lra.
  - pose proof (Qceiling_resp_le _ _ Hq1) as Hceil.
    change (Qceiling (-1)) with (-1) in Hceil. lia.
Qed.

(** X9. A negative chunk duration [c] is not an error: when the audio
    lasts at least [-c] seconds, no chunk is cut, nothing is recognised, and
    the run returns the empty transcript. *)
Theorem negative_chunk_duration_empty_transcript w url c d :
  load_model w = None →
  yt_dlp w url = None →
  ffprobe w = Ok d →
  c < 0 →
  (inject_Z (- c) <= d)%Q →
  outcome (transcribe_video w url c) = Ok {| text := ""; segments := [] |}
  ∧ calls_of (transcribe_video w url c) = [LoadModel; YtDlp url; FFprobe].
Proof.
  intros Hload Hdl Hprobe Hc Hd.
  assert (Hlt : (inject_Z c < d)%Q).
  { apply Qlt_le_trans with (inject_Z (- c)); [|done]. rewrite <- Zlt_Qlt. lia. }
  pose proof (range_nonpos _ (num_chunks_negative d c Hc Hd)) as Hrange.
  rewrite outcome_transcribe_video, calls_of_transcribe_video.
  rewrite Hload, Hdl, Hprobe, after_probe_chunked by done.
  rewrite outcome_bind, calls_of_bind.
  rewrite split_audio_ok; [|lia|rewrite Hrange; by intros i Hi%elem_of_nil].
  rewrite Hrange. done.
Qed.

Lemma negative_chunk_duration_empty_transcript_witness :
  outcome (transcribe_video (world_ok 30) sample_url (-10))
    = Ok {| text := ""; segments := [] |}
  ∧ calls_of (transcribe_video (world_ok 30) sample_url (-10))
    = [LoadModel; YtDlp sample_url; FFprobe].
Proof.
  apply (negative_chunk_duration_empty_transcript (world_ok 30) sample_url (-10) 30);
    reflexivity || lia || discriminate.
Defined.

(** ** Shape of the returned segments *)

Lemma Forall_flat_map {A B} (P : B → Prop) (f : A → list B) (l : list A) :
  (∀ x, x ∈ l → Forall P (f x)) → Forall P (flat_map f l).
Proof.
  induction l as [|x l IH]; intros Hf; cbn [flat_map]; [constructor|].
  apply Forall_app. split; [apply Hf; by left|].
  apply IH. intros y Hy. apply Hf. by right.
Qed.

(** X11. If in every recognition result each segment ends no earlier than
    it starts, the same holds for every segment of a returned transcript:
    the merge moves start and end of a segment by the same offset. *)
Theorem merged_segments_well_formed w url c t :
  (∀ f r, whisper w f = Ok r →
     Forall (λ s, (ws_start s <= ws_end s)%Q) (wr_segments r)) →
  outcome (transcribe_video w url c) = Ok t →
  Forall (λ s, (seg_start s <= seg_end s)%Q) (segments t).
Proof.
  intros Hraw Hrun. rewrite outcome_transcribe_video in Hrun.
  destruct (load_model w); [discriminate|].
  destruct (yt_dlp w url); [discriminate|].
  destruct (ffprobe w) as [d|]; [|discriminate].
  destruct (Qle_bool d (inject_Z c)) eqn:Hle.
  - apply Qle_bool_iff in Hle. rewrite after_probe_direct in Hrun by done.
    autorewrite with run in Hrun.
    destruct (whisper w AudioFile) as [r|] eqn:Hr; [|discriminate].
    autorewrite with run in Hrun. injection Hrun as <-. cbn [segments].
    apply Forall_fmap. eapply Forall_impl; [exact (Hraw _ _ Hr)|]. done.
  - apply Qle_bool_false_inv in Hle.
    destruct (after_probe_chunked_inv _ _ _ _ Hle Hrun) as (_ & Hok & ->).
    cbn [segments]. apply Forall_flat_map. intros i Hi.
    destruct (Hok i Hi) as [_ Hr].
    apply Forall_fmap. eapply Forall_impl; [exact (Hraw _ _ Hr)|].
    intros s Hs. cbn [shift_segment seg_start seg_end compose].
    by apply Qplus_le_l.
Qed.

Lemma merged_segments_well_formed_witness :
  ∃ t, outcome (transcribe_video (world_ok 1200) sample_url 600) = Ok t
       ∧ length (segments t) = 6%nat
       ∧ Forall (λ s, (seg_start s <= seg_end s)%Q) (segments t).
Proof.
  eexists. split; [reflexivity|]. split; [reflexivity|].
  apply (merged_segments_well_formed (world_ok 1200) sample_url 600); [|reflexivity].
  intros f r [= <-]. destruct f; cbn [sample_result wr_segments];
    repeat constructor; discriminate.
Defined.
